(** * IBCRS equipment scanner: the detection-and-enrichment pipeline

    A shallow embedding of [server/main.py] (the FastAPI scan service) and of
    the per-box code of [ml/webcam.py] (the live overlay loop), with the
    properties of the pipeline proved over it.

    Modelling conventions.
    - A Python [float] is modelled by the rational number it denotes ([Q]);
      NaN, the infinities and the sign of zero have no counterpart.  A
      confidence is a finite float, so nothing is lost for the pipeline.
    - A Python [str] is the [string] of the bytes of its UTF-8 encoding, so
      an ASCII text is one character per byte.  [str.lower], which follows
      the Unicode tables, is a function the service is given; what it does
      to an ASCII text is known and written out ([ascii_lower]).
    - A Python [dict] is a [gmap]; where the iteration order of a dict
      matters (the items of the parsed JSON document) it is the list of its
      items in insertion order.
    - An exception is a value of type [exn]; a call that may raise returns a
      [result].
    - The libraries the service calls ([base64.b64decode], [cv2.imdecode],
      [str.lower], the YOLO model) are fields of a record passed to the
      functions that use them. *)

From Stdlib Require Import ZArith QArith Qabs Qround String Ascii List Lqa.
From stdpp Require Import base gmap list strings pretty sorting.

Open Scope Z_scope.

(** ** Python builtins used by the two files *)

Module Py.

(** Exceptions raised or handled in the two files. *)
Inductive exn : Type :=
| ValueError (msg : string)
| KeyError (key : Z)
| HTTPException (status_code : Z) (detail : string)
| Cv2Error (msg : string).

Inductive result (A : Type) : Type :=
| Ok (a : A)
| Raise (e : exn).
Arguments Ok {A} a.
Arguments Raise {A} e.

(** [s.isascii()]: every character of [s] is below 128. *)
Fixpoint isascii (s : string) : bool :=
  match s with
  | EmptyString => true
  | String c s' => (nat_of_ascii c <? 128)%nat && isascii s'
  end.

(** What [c.lower()] is for an ASCII character: the letters [A] to [Z]
    move to [a] to [z]. *)
Definition ascii_lower_char (c : ascii) : ascii :=
  let n := nat_of_ascii c in
  if ((65 <=? n)%nat && (n <=? 90)%nat)%bool then ascii_of_nat (n + 32) else c.

(** What [s.lower()] is for an ASCII text [s]. *)
Fixpoint ascii_lower (s : string) : string :=
  match s with
  | EmptyString => EmptyString
  | String c s' => String (ascii_lower_char c) (ascii_lower s')
  end.

(** A decimal digit as a text. *)
Definition digit (d : Z) : string :=
  String (ascii_of_nat (48 + Z.to_nat d)) EmptyString.

(** [sep in s] for a one-character [sep]. *)
Fixpoint contains (sep : ascii) (s : string) : bool :=
  match s with
  | EmptyString => false
  | String c s' => if Ascii.eqb c sep then true else contains sep s'
  end.

(** [s.split(sep, 1)] for a one-character [sep]: the list [[s]] when [sep]
    does not occur, and [[before; after]] around its first occurrence
    otherwise. *)
Fixpoint split1 (sep : ascii) (s : string) : list string :=
  match s with
  | EmptyString => [EmptyString]
  | String c s' =>
      if Ascii.eqb c sep then [EmptyString; s']
      else match split1 sep s' with
           | hd :: tl => String c hd :: tl
           | [] => [String c EmptyString]
           end
  end.

(** [int(x)] of a float: truncation towards zero. *)
Definition int_of_float (x : Q) : Z := Z.quot (Qnum x) (Zpos (Qden x)).

(** The integer nearest to [x], ties going to the even neighbour. *)
Definition round_half_even (x : Q) : Z :=
  let f := Qfloor x in
  match Qcompare (x - inject_Z f) (1 # 2) with
  | Lt => f
  | Gt => f + 1
  | Eq => if Z.even f then f else f + 1
  end.

(** [round(x, ndigits)] of a float, [ndigits >= 0]: the decimal with
    [ndigits] places nearest to [x] (half to even), which CPython then
    stores as the nearest float. *)
Definition round (x : Q) (ndigits : nat) : Q :=
  Qmake (round_half_even (x * inject_Z (10 ^ Z.of_nat ndigits))) (Pos.of_nat (10 ^ ndigits)).

(** [f"{n}"] of an int. *)
Definition str_of_int (n : Z) : string := pretty n.

(** [n] zeros. *)
Fixpoint zeros (n : nat) : string :=
  match n with
  | O => EmptyString
  | S n' => String "0" (zeros n')
  end.

(** [f"{x:.<p>f}"] of a float, [p >= 1]: sign, integer part, point and
    [p] digits of the decimal with [p] places nearest to [x] (half to
    even). *)
Definition format_f (p : nat) (x : Q) : string :=
  let scale := 10 ^ Z.of_nat p in
  let h := round_half_even (Qabs x * inject_Z scale) in
  let sign : string := if Qle_bool 0 x then "" else "-" in
  let digits : string := pretty (Z.modulo h scale) in
  sign +:+ pretty (Z.div h scale) +:+ "." +:+
    zeros (p - String.length digits) +:+ digits.

(** [x == y] on floats is decidable. *)
#[export] Instance float_eq_dec (x y : Q) : Decision (x == y)%Q := Qeq_dec x y.

(** [x < y] on floats, the only comparison [list.sort] uses. *)
Definition float_lt (x y : Q) : bool := negb (Qle_bool y x).

Section Sorted.
Context {A : Type} (key : A → Q).

(** Ascending and descending order of the keys. *)
Definition ascending (a b : A) : Prop := (key a <= key b)%Q.
Definition descending (a b : A) : Prop := (key b <= key a)%Q.

(** Insertion of [x] in front of a list sorted by ascending key: [x]
    passes the elements whose key is smaller than its own and stops
    before the first one that is not. *)
Fixpoint insert_by (x : A) (l : list A) : list A :=
  match l with
  | [] => [x]
  | y :: l' =>
      if float_lt (key y) (key x) then y :: insert_by x l'
      else x :: y :: l'
  end.

(** The stable ascending sort of [list.sort]: elements with equal keys
    keep their order. *)
Fixpoint stable_sort (l : list A) : list A :=
  match l with
  | [] => []
  | x :: l' => insert_by x (stable_sort l')
  end.

(** [sorted(l, key=key, reverse=rev)].  As in CPython's
    [list.sort], [reverse=True] reverses the list, sorts it ascending
    and reverses the outcome, which keeps the sort stable. *)
Definition sorted (rev : bool) (l : list A) : list A :=
  if rev then reverse (stable_sort (reverse l)) else stable_sort l.
End Sorted.

End Py.

(** ** [server/main.py] *)

Module Server.
Import Py.

(** A parsed JSON value: what [json.load] returns and what a [details]
    field holds.  Python's [None] is [JNull]. *)
#[local] Unset Elimination Schemes.
Inductive json : Type :=
| JNull
| JBool (b : bool)
| JNum (x : Q)
| JStr (s : string)
| JArr (items : list json)
| JObj (members : list (string * json)).
#[local] Set Elimination Schemes.

(** An OpenCV image: rows of pixels of BGR samples. *)
Definition ndarray : Type := list (list (list Z)).

(** One entry of [result.boxes]: [cls] and [conf] stand for [box.cls[0]]
    and [box.conf[0]], [xyxy] for the four entries of [box.xyxy[0]]. *)
Record Box : Type := mkBox {
  cls : Q;
  conf : Q;
  xyxy : Q * Q * Q * Q
}.

(** One element of the list the model returns: the class-name table and
    the candidate boxes. *)
Record Results : Type := mkResults {
  names : gmap Z string;
  boxes : list Box
}.

Record BBox : Type := mkBBox { x1 : Q; y1 : Q; x2 : Q; y2 : Q }.

(** The dict [format_detections] appends for a box. *)
Record Detection : Type := mkDetection {
  label : string;
  confidence : Q;
  bbox : BBox;
  details : json
}.

(** [class ScanRequest(BaseModel)] *)
Record ScanRequest : Type := mkScanRequest { image : string }.

(** The dict [scan] returns. *)
Record ScanResponse : Type := mkScanResponse {
  found : bool;
  count : nat;
  detections : list Detection
}.

(** What [cv2.imdecode(np_arr, cv2.IMREAD_COLOR)] does with a buffer: it
    returns an image, it returns [None], or it raises [cv2.error] (as it
    does for a buffer without bytes). *)
Inductive imdecode_outcome : Type :=
| Image (frame : ndarray)
| NoImage
| Cv2Raise (msg : string).

(** What the module reads from outside itself: the library calls of
    [decode_image] and [attach_details] and the two globals set at import
    time.
    [b64decode s] is [None] when [base64.b64decode(s)] raises;
    [imdecode raw] is what [cv2.imdecode] does with the buffer;
    [str_lower s] is [s.lower()];
    [model frame conf] is the list [model(frame, conf=conf)]. *)
Record Env : Type := mkEnv {
  b64decode : string → option (list Byte.byte);
  imdecode : list Byte.byte → imdecode_outcome;
  str_lower : string → string;
  equipment_db : gmap string json;
  model : ndarray → Q → list Results
}.

(** [load_equipment_data]: [lower] is [str.lower]; [file] is [None] when
    [equipment.json] does not exist, and the items of the parsed JSON
    object, in document order, otherwise.  The comprehension inserts the
    items in that order, a later one replacing an earlier one with the same
    lower-cased key. *)
Definition load_equipment_data (lower : string → string)
    (file : option (list (string * json))) : gmap string json :=
  match file with
  | Some data => foldl (λ db kv, <[lower kv.1 := kv.2]> db) ∅ data
  | None => ∅
  end.

(** The payload of a request string as the specification words it: what
    follows the first comma, or the whole string when it has none. *)
Inductive payload_of : string → string → Prop :=
| payload_after_comma header data :
    contains "," header = false →
    payload_of (header +:+ "," +:+ data) data
| payload_whole data :
    contains "," data = false →
    payload_of data data.

Section WithEnv.
Variable env : Env.

(** [decode_image]: the payload is what follows the first comma, or the
    whole string when there is none.  (Unpacking the outcome of
    [split] into two names raises [ValueError] when it has not two
    elements, which cannot happen under the test of the [if].)  Only the
    call of [base64.b64decode] stands in a [try]: what [cv2.imdecode]
    raises leaves the function as it is. *)
Definition decode_image (data_url : string) : result ndarray :=
  let payload :=
    if contains "," data_url then
      match split1 "," data_url with
      | [_; data] => Ok data
      | _ => Raise (ValueError "not enough values to unpack")
      end
    else Ok data_url in
  match payload with
  | Raise e => Raise e
  | Ok data =>
      match b64decode env data with
      | None => Raise (ValueError "Invalid base64 string")
      | Some raw =>
          match imdecode env raw with
          | Cv2Raise msg => Raise (Cv2Error msg)
          | NoImage => Raise (ValueError "Unable to decode image")
          | Image frame => Ok frame
          end
      end
  end.

(** [attach_details]: [dict.get] gives [None] for a missing key. *)
Definition attach_details (label : string) : json :=
  let key := str_lower env label in
  default JNull (equipment_db env !! key).

(** The body of the loop of [format_detections]: the dict built for
    one box. *)
Definition detection_of (names : gmap Z string) (box : Box) : Detection :=
  let cls_id := int_of_float (cls box) in
  let label := default ("class_" +:+ str_of_int cls_id) (names !! cls_id) in
  let conf := conf box in
  let '(a, b, c, d) := xyxy box in
  {| label := label;
     confidence := round conf 3;
     bbox := {| x1 := a; y1 := b; x2 := c; y2 := d |};
     details := attach_details label |}.

(** [format_detections] *)
Definition format_detections (result : Results) : list Detection :=
  let detections := detection_of (names result) <$> boxes result in
  sorted confidence true detections.

(** [scan]: the handler of [POST /api/scan].  The threshold [conf=0.3] is
    written [3 # 10]; the model is the only one to read it.  The [except]
    clause catches [ValueError] alone; any other exception of
    [decode_image] leaves the handler. *)
Definition scan (req : ScanRequest) : result ScanResponse :=
  match decode_image (image req) with
  | Raise (ValueError msg) => Raise (HTTPException 400 msg)
  | Raise e => Raise e
  | Ok frame =>
      let results := model env frame (3 # 10) in
      match results with
      | [] => Raise (HTTPException 500 "Model did not return results")
      | result :: _ =>
          let detections := format_detections result in
          Ok {| found := (0 <? length detections)%nat;
                count := length detections;
                detections := detections |}
      end
  end.
End WithEnv.

End Server.

(** ** [ml/webcam.py]: what the loop computes for one box *)

Module Webcam.
Import Py.

(** [f"{model.names[cls_id]} {conf:.2f}"]: indexing the name table raises
    [KeyError] for an absent class id. *)
Definition box_label (names : gmap Z string) (box : Server.Box) : result string :=
  let cls_id := int_of_float (Server.cls box) in
  let conf := Server.conf box in
  match names !! cls_id with
  | None => Raise (KeyError cls_id)
  | Some name => Ok (name +:+ " " +:+ format_f 2 conf)
  end.

(** [x1, y1, x2, y2 = map(int, box.xyxy[0])] *)
Definition box_corners (box : Server.Box) : Z * Z * Z * Z :=
  let '(a, b, c, d) := Server.xyxy box in
  (int_of_float a, int_of_float b, int_of_float c, int_of_float d).

End Webcam.

(** ** A small world to run the service in *)

Module Sample.
Import Py Server.

(** A codec that reads the payload as is, except that a payload with an
    exclamation mark is not base64; a buffer starting with [A] is a black
    pixel, one starting with [e] a white pixel, one starting with [z] an
    image without pixels, the buffer without bytes makes [cv2.imdecode]
    raise, and any other buffer is not an image. *)
Definition sample_b64decode (s : string) : option (list Byte.byte) :=
  if contains "!" s then None else Some (list_byte_of_string s).

Definition sample_imdecode (raw : list Byte.byte) : imdecode_outcome :=
  match raw with
  | [] => Cv2Raise "(-215:Assertion failed) !buf.empty() in function 'imdecode_'"
  | Byte.x41 :: _ => Image [[[0; 0; 0]]]
  | Byte.x65 :: _ => Image [[[255; 255; 255]]]
  | Byte.x7a :: _ => Image []
  | _ => NoImage
  end.

Definition sample_names : gmap Z string :=
  <[0 := "Wrench"%string]> (<[1 := "Drill"%string]> ∅).

Definition wrench_details : json :=
  JObj [("name", JStr "Wrench"); ("location", JStr "Shelf A")]%string.

Definition sample_file : list (string * json) :=
  [("Wrench", wrench_details)]%string.

Definition box_a : Box := mkBox 0 (1231 # 10000) (1, 2, 3, 4)%Q.
Definition box_b : Box := mkBox 1 (1234 # 10000) (5, 6, 7, 8)%Q.
Definition box_c : Box := mkBox 7 (91 # 100) (0, 0, 9, 9)%Q.

Definition sample_results : Results :=
  mkResults sample_names [box_a; box_b; box_c].

(** The model finds three boxes in the black pixel, none in the white one,
    and returns an empty list for anything else. *)
Definition sample_model (frame : ndarray) (conf : Q) : list Results :=
  match frame with
  | [[[0; _; _]]] => [sample_results]
  | [[[255; _; _]]] => [mkResults sample_names []]
  | _ => []
  end.

Definition sample_env : Env :=
  {| b64decode := sample_b64decode;
     imdecode := sample_imdecode;
     str_lower := ascii_lower;
     equipment_db := load_equipment_data ascii_lower (Some sample_file);
     model := sample_model |}.

End Sample.

(** ** [ml/webcam.py]: the capture loop

    The camera, the keyboard and the window are the outside of the script.
    One [Tick] holds what they answer during one turn of the loop:
    [cap.isOpened()], [cap.read()] ([None] when [ret] is false) and
    [cv2.waitKey(1)].  What the script does to the frame is the list of its
    drawing calls, and what it shows is the list of the frames passed to
    [cv2.imshow] with their drawings. *)

Module WebcamLoop.
Import Py.

(** The two drawing calls, with the arguments the script gives them. *)
Inductive draw : Type :=
| Rectangle (pt1 pt2 : Z * Z) (color : Z * Z * Z) (thickness : Z)
| PutText (text : string) (org : Z * Z) (font_scale : Q)
    (color : Z * Z * Z) (thickness : Z).

(** How a run over a list of ticks stands at its end: the loop was left and
    the last two lines ([cap.release()], [cv2.destroyAllWindows()]) ran; an
    exception of the label left the script; indexing an empty list of
    results with [[0]] raised [IndexError]; or the loop is still turning. *)
Inductive stop : Type :=
| Released
| Uncaught (e : exn)
| NoResult
| Turning.

Record Tick : Type := mkTick {
  is_opened : bool;
  read : option Server.ndarray;
  wait_key : Z
}.

(** [cv2.waitKey(1) & 0xFF == ord('q')] *)
Definition quit_key (key : Z) : bool :=
  Z.land key 255 =? Z.of_nat (nat_of_ascii "q").

(** The body of [for box in boxes]: corners, label, then the two calls. *)
Definition draw_box (names : gmap Z string) (box : Server.Box) : result (list draw) :=
  let '(x1, y1, x2, y2) := Webcam.box_corners box in
  match Webcam.box_label names box with
  | Raise e => Raise e
  | Ok label =>
      Ok [Rectangle (x1, y1) (x2, y2) (0, 255, 0) 2;
          PutText label (x1, y1 - 10) (6 # 10) (0, 255, 0) 2]
  end.

(** [for box in boxes]: the calls of all boxes in turn, up to the first
    exception. *)
Fixpoint draw_boxes (names : gmap Z string) (boxes : list Server.Box)
  : result (list draw) :=
  match boxes with
  | [] => Ok []
  | box :: boxes' =>
      match draw_box names box with
      | Raise e => Raise e
      | Ok calls =>
          match draw_boxes names boxes' with
          | Raise e => Raise e
          | Ok calls' => Ok (calls ++ calls')
          end
      end
  end.

(** [while cap.isOpened(): ...] over the ticks given: the frames shown and
    how the run stands.  [names] is [model.names], and [model frame conf
    imgsz] is the list [model(frame, conf=conf, imgsz=imgsz)], of which the
    script takes the element [[0]]. *)
Fixpoint run (names : gmap Z string)
    (model : Server.ndarray → Q → Z → list Server.Results)
    (ticks : list Tick) : list (Server.ndarray * list draw) * stop :=
  match ticks with
  | [] => ([], Turning)
  | tick :: ticks' =>
      if is_opened tick then
        match read tick with
        | None => ([], Released)
        | Some frame =>
            match model frame (4 # 10) 960 with
            | [] => ([], NoResult)
            | results :: _ =>
                match draw_boxes names (Server.boxes results) with
                | Raise e => ([], Uncaught e)
                | Ok calls =>
                    if quit_key (wait_key tick) then ([(frame, calls)], Released)
                    else
                      let '(shown, st) := run names model ticks' in
                      ((frame, calls) :: shown, st)
                end
            end
        end
      else ([], Released)
  end.

(** A camera that delivers black pixels and a detector for them. *)
Definition camera_model (frame : Server.ndarray) (conf : Q) (imgsz : Z)
  : list Server.Results :=
  [Server.mkResults Sample.sample_names [Sample.box_a; Sample.box_b]].

Definition black : Server.ndarray := [[[0; 0; 0]]].

Definition sample_ticks : list Tick :=
  [mkTick true (Some black) (-1); mkTick true (Some black) 113;
   mkTick true (Some black) (-1)].

End WebcamLoop.

(** ** More of the small world *)

Module MoreSamples.
Import Py Server Sample.

(** A box of another class the name table does not know. *)
Definition box_d : Box := mkBox 9 (55 # 100) (2, 2, 6, 6)%Q.

(** The three sample detections in the order of their ranking. *)
Definition ranked_sample : list Detection :=
  [detection_of sample_env sample_names box_c;
   detection_of sample_env sample_names box_a;
   detection_of sample_env sample_names box_b].

(** What the capture loop shows for a black pixel in which the detector
    finds [box_a] and [box_b]. *)
Definition sample_shown : ndarray * list WebcamLoop.draw :=
  (WebcamLoop.black,
   [WebcamLoop.Rectangle (1, 2) (3, 4) (0, 255, 0) 2;
    WebcamLoop.PutText "Wrench 0.12" (1, -8) (6 # 10) (0, 255, 0) 2;
    WebcamLoop.Rectangle (5, 6) (7, 8) (0, 255, 0) 2;
    WebcamLoop.PutText "Drill 0.12" (5, -4) (6 # 10) (0, 255, 0) 2]).

(** A detector for the capture loop that reports a class without a name. *)
Definition unnamed_model (frame : ndarray) (conf : Q) (imgsz : Z) : list Results :=
  [mkResults sample_names [box_a; box_c]].

End MoreSamples.

(** ** Facts about the builtins *)

Module PyFacts.
Import Py.

Lemma float_lt_true x y : float_lt x y = true ↔ (x < y)%Q.
Proof.
  unfold float_lt. rewrite negb_true_iff, <- not_true_iff_false, Qle_bool_iff.
  split; [apply Qnot_le_lt | apply Qlt_not_le].
Qed.

Lemma float_lt_false x y : float_lt x y = false ↔ (y <= x)%Q.
Proof. unfold float_lt. rewrite negb_false_iff. apply Qle_bool_iff. Qed.

(** [round_half_even x] is an integer nearest to [x], *)
Lemma round_half_even_near x :
  (inject_Z (round_half_even x) - (1 # 2) <= x
     <= inject_Z (round_half_even x) + (1 # 2))%Q.
Proof.
  unfold round_half_even.
  pose proof (Qfloor_le x) as Hlo. pose proof (Qlt_floor x) as Hhi.
  rewrite inject_Z_plus in Hhi. change (inject_Z 1) with 1%Q in Hhi.
  destruct (Qcompare_spec (x - inject_Z (Qfloor x)) (1 # 2)) as [He|Hl|Hg];
    [destruct (Z.even (Qfloor x))|..];
    rewrite ?inject_Z_plus; change (inject_Z 1) with 1%Q;
    generalize dependent (inject_Z (Qfloor x)); intros; lra.
Qed.

(** and the even one when [x] lies half-way between two integers. *)
Lemma round_half_even_tie x :
  (x == inject_Z (round_half_even x) - (1 # 2) ∨
   x == inject_Z (round_half_even x) + (1 # 2))%Q →
  Z.even (round_half_even x) = true.
Proof.
  unfold round_half_even.
  pose proof (Qfloor_le x) as Hlo. pose proof (Qlt_floor x) as Hhi.
  rewrite inject_Z_plus in Hhi. change (inject_Z 1) with 1%Q in Hhi.
  destruct (Qcompare_spec (x - inject_Z (Qfloor x)) (1 # 2)) as [He|Hl|Hg].
  - destruct (Z.even (Qfloor x)) eqn:Hev; [done|].
    intros _. by rewrite Z.even_add, Hev.
  - generalize dependent (inject_Z (Qfloor x)). intros f ? ? ? [H|H]; lra.
  - rewrite inject_Z_plus. change (inject_Z 1) with 1%Q.
    generalize dependent (inject_Z (Qfloor x)). intros f ? ? ? [H|H]; lra.
Qed.

(** [round(x, 3)] is the multiple of 1/1000 nearest to [x], the even
    multiple on a tie. *)
Lemma round_3_spec x :
  ∃ m : Z, round x 3 = (m # 1000)%Q ∧
    ((m # 1000) - (1 # 2000) <= x <= (m # 1000) + (1 # 2000))%Q ∧
    ((x == (m # 1000) - (1 # 2000) ∨ x == (m # 1000) + (1 # 2000))%Q →
     Z.even m = true).
Proof.
  exists (round_half_even (x * inject_Z 1000)). split; [done|].
  pose proof (round_half_even_near (x * inject_Z 1000)) as Hn.
  pose proof (round_half_even_tie (x * inject_Z 1000)) as Ht.
  set (k := round_half_even _) in *.
  split.
  - rewrite (Qmake_Qdiv k 1000). change (inject_Z 1000) with 1000%Q in *.
    generalize dependent (inject_Z k). intros.
    unfold Qdiv. change (/ 1000)%Q with (1 # 1000)%Q. lra.
  - intros Hx. apply Ht. clear Ht. clearbody k.
    rewrite (Qmake_Qdiv k 1000) in Hx. change (inject_Z 1000) with 1000%Q in *.
    unfold Qdiv in Hx. change (/ 1000)%Q with (1 # 1000)%Q in Hx.
    generalize dependent (inject_Z k). intros q _ [H|H]; [left|right]; lra.
Qed.

(** Equal floats have the same rounding. *)
Lemma round_half_even_proper x y : (x == y)%Q → round_half_even x = round_half_even y.
Proof.
  intros Hxy. unfold round_half_even. rewrite (Qfloor_comp _ _ Hxy).
  assert (x - inject_Z (Qfloor y) == y - inject_Z (Qfloor y))%Q as Heq
    by (by rewrite Hxy).
  by rewrite (Qcompare_comp _ _ Heq _ _ (Qeq_refl (1 # 2))).
Qed.

Lemma round_proper x y n : (x == y)%Q → round x n = round y n.
Proof.
  intros Hxy. unfold round. f_equal. apply round_half_even_proper. by rewrite Hxy.
Qed.

Section SortedFacts.
Context {A : Type} (key : A → Q).

Lemma insert_by_Permutation x l : insert_by key x l ≡ₚ x :: l.
Proof.
  induction l as [|y l IH]; simpl; [done|].
  destruct (float_lt (key y) (key x)); [|done].
  rewrite IH. apply Permutation_swap.
Qed.

Lemma stable_sort_Permutation l : stable_sort key l ≡ₚ l.
Proof.
  induction l as [|x l IH]; simpl; [done|].
  by rewrite insert_by_Permutation, IH.
Qed.

Lemma sorted_Permutation rev l : sorted key rev l ≡ₚ l.
Proof.
  destruct rev; simpl; [|apply stable_sort_Permutation].
  by rewrite reverse_Permutation, stable_sort_Permutation, reverse_Permutation.
Qed.

Lemma insert_by_ascending x l :
  StronglySorted (ascending key) l → StronglySorted (ascending key) (insert_by key x l).
Proof.
  induction l as [|y l IH]; simpl; intros Hs.
  - repeat constructor.
  - apply StronglySorted_cons in Hs as [Hy Hl].
    destruct (float_lt (key y) (key x)) eqn:Hlt.
    + apply float_lt_true in Hlt.
      apply StronglySorted_cons. split; [|by apply IH].
      rewrite insert_by_Permutation. constructor; [|done].
      by apply Qlt_le_weak.
    + apply float_lt_false in Hlt.
      apply StronglySorted_cons. split.
      * constructor; [done|].
        eapply Forall_impl; [exact Hy|]. intros z Hz. unfold ascending in *.
        by eapply Qle_trans.
      * by apply StronglySorted_cons.
Qed.

Lemma stable_sort_ascending l : StronglySorted (ascending key) (stable_sort key l).
Proof.
  induction l as [|x l IH]; simpl; [constructor|]. by apply insert_by_ascending.
Qed.

Lemma reverse_descending l :
  StronglySorted (ascending key) l → StronglySorted (descending key) (reverse l).
Proof.
  induction l as [|x l IH]; intros Hs; [constructor|].
  apply StronglySorted_cons in Hs as [Hx Hl].
  rewrite reverse_cons. apply StronglySorted_app_2.
  - intros a b Ha Hb. rewrite elem_of_reverse in Ha.
    apply list_elem_of_singleton in Hb as ->.
    rewrite Forall_forall in Hx. exact (Hx a Ha).
  - by apply IH.
  - repeat constructor.
Qed.

Lemma reverse_ascending l :
  StronglySorted (descending key) l → StronglySorted (ascending key) (reverse l).
Proof.
  induction l as [|x l IH]; intros Hs; [constructor|].
  apply StronglySorted_cons in Hs as [Hx Hl].
  rewrite reverse_cons. apply StronglySorted_app_2.
  - intros a b Ha Hb. rewrite elem_of_reverse in Ha.
    apply list_elem_of_singleton in Hb as ->.
    rewrite Forall_forall in Hx. exact (Hx a Ha).
  - by apply IH.
  - repeat constructor.
Qed.

Lemma sorted_reverse_descending l : StronglySorted (descending key) (sorted key true l).
Proof. apply reverse_descending, stable_sort_ascending. Qed.

Lemma sorted_ascending l : StronglySorted (ascending key) (sorted key false l).
Proof. apply stable_sort_ascending. Qed.

(** Stability: a class of elements that share one key is left in the
    order it had. *)
Section Stable.
Context (P : A → Prop) `{!∀ x, Decision (P x)}.
Hypothesis same_key : ∀ a b, P a → P b → (key a == key b)%Q.

Lemma insert_by_filter x l : filter P (insert_by key x l) = filter P (x :: l).
Proof.
  induction l as [|y l IH]; simpl; [done|].
  destruct (float_lt (key y) (key x)) eqn:Hlt; [|done].
  apply float_lt_true in Hlt.
  rewrite (filter_cons _ y), IH, !(filter_cons _ x), !(filter_cons _ y).
  destruct (decide (P y)) as [Hy|]; [|done].
  destruct (decide (P x)) as [Hx|]; [|done].
  exfalso. rewrite (same_key y x Hy Hx) in Hlt. by apply Qlt_irrefl in Hlt.
Qed.

Lemma stable_sort_filter l : filter P (stable_sort key l) = filter P l.
Proof.
  induction l as [|x l IH]; simpl; [done|].
  by rewrite insert_by_filter, !filter_cons, IH.
Qed.

Lemma sorted_filter rev l : filter P (sorted key rev l) = filter P l.
Proof.
  destruct rev; simpl; [|apply stable_sort_filter].
  by rewrite filter_reverse, stable_sort_filter, filter_reverse, reverse_involutive.
Qed.
End Stable.

(** In descending order an element comes before those of smaller key. *)
Lemma sorted_reverse_strict l a b :
  a ∈ l → b ∈ l → (key a < key b)%Q →
  [b; a] `sublist_of` sorted key true l.
Proof.
  intros Ha Hb Hlt.
  pose proof (sorted_reverse_descending l) as Hs.
  rewrite <- (sorted_Permutation true l) in Ha, Hb.
  apply list_elem_of_split in Ha as (l1 & l2 & Heq). rewrite Heq in Hs, Hb |- *.
  apply StronglySorted_app in Hs as (_ & _ & [Ha2 _]%StronglySorted_cons).
  apply elem_of_app in Hb as [Hb|[->|Hb]%elem_of_cons].
  - apply list_elem_of_split in Hb as (l3 & l4 & ->).
    rewrite <- app_assoc. apply sublist_inserts_l. simpl.
    constructor. apply sublist_inserts_l. constructor. apply sublist_nil_l.
  - by apply Qlt_irrefl in Hlt.
  - rewrite Forall_forall in Ha2. specialize (Ha2 b Hb). unfold descending in Ha2.
    exfalso. by apply (Qlt_not_le _ _ Hlt).
Qed.

(** The elements of a list with a given key, in the order of the list. *)
#[local] Abbreviation with_key c := (filter (λ x, key x == c)%Q).

Lemma ascending_head_le x l y :
  StronglySorted (ascending key) (x :: l) → y ∈ x :: l → (key x <= key y)%Q.
Proof.
  intros [Hx _]%StronglySorted_cons [->|Hy]%elem_of_cons; [apply Qle_refl|].
  rewrite Forall_forall in Hx. exact (Hx y Hy).
Qed.

(** Two lists in ascending order with the same elements in the same order
    for each key are equal: the outcome of a stable sort does not depend on
    the algorithm. *)
Lemma ascending_classes_eq k1 k2 :
  StronglySorted (ascending key) k1 → StronglySorted (ascending key) k2 →
  (∀ c, with_key c k1 = with_key c k2) → k1 = k2.
Proof.
  revert k2. induction k1 as [|x k1 IH]; intros [|y k2] Hs1 Hs2 Hc; [done|..].
  - specialize (Hc (key y)). rewrite filter_nil, filter_cons_True in Hc; done.
  - specialize (Hc (key x)). rewrite filter_nil, filter_cons_True in Hc; done.
  - assert (Hyx : (key y <= key x)%Q).
    { apply (ascending_head_le y k2 x Hs2).
      eapply list_elem_of_filter. rewrite <- (Hc (key x)), filter_cons_True by done.
      apply list_elem_of_here. }
    assert (Hxy : (key x <= key y)%Q).
    { apply (ascending_head_le x k1 y Hs1).
      eapply list_elem_of_filter. rewrite (Hc (key y)), filter_cons_True by done.
      apply list_elem_of_here. }
    assert (Hk : (key y == key x)%Q) by by apply Qle_antisym.
    pose proof (Hc (key x)) as Hcx.
    rewrite !filter_cons_True in Hcx by done. injection Hcx as <- _.
    f_equal. apply IH.
    + by apply StronglySorted_cons in Hs1 as [_ ?].
    + by apply StronglySorted_cons in Hs2 as [_ ?].
    + intros c. specialize (Hc c). rewrite !(filter_cons _ x) in Hc.
      destruct (decide (key x == c)%Q); congruence.
Qed.

(** [sorted] is the one stable arrangement of the list in the order asked
    for. *)
Lemma sorted_unique (rev : bool) (l k : list A) :
  StronglySorted (if rev then descending key else ascending key) k →
  (∀ c, with_key c k = with_key c l) →
  k = sorted key rev l.
Proof.
  intros Hs Hc.
  assert (Hsame : ∀ c a b, (key a == c)%Q → (key b == c)%Q → (key a == key b)%Q).
  { intros c a b Ha Hb. by rewrite Ha, Hb. }
  destruct rev; simpl.
  - rewrite <- (reverse_involutive k). f_equal.
    apply ascending_classes_eq;
      [by apply reverse_ascending|apply stable_sort_ascending|].
    intros c. rewrite (stable_sort_filter _ (Hsame c)), !filter_reverse.
    by rewrite Hc.
  - apply ascending_classes_eq; [done|apply stable_sort_ascending|].
    intros c. by rewrite (stable_sort_filter _ (Hsame c)).
Qed.

End SortedFacts.

Lemma StronglySorted_lookup {A} (R : relation A) l i j a b :
  StronglySorted R l → (i < j)%nat → l !! i = Some a → l !! j = Some b → R a b.
Proof.
  intros Hs Hij Ha Hb.
  rewrite <- (take_drop j l) in Hs.
  eapply StronglySorted_app_1_elem_of; [exact Hs| |].
  - apply list_elem_of_lookup. exists i. by rewrite lookup_take_lt.
  - apply list_elem_of_lookup. exists 0%nat. by rewrite lookup_drop, Nat.add_0_r.
Qed.

Lemma filter_sublist_mono {A} (P : A → Prop) `{!∀ x, Decision (P x)} l k :
  l `sublist_of` k → filter P l `sublist_of` filter P k.
Proof.
  induction 1 as [|x l k _ IH|x l k _ IH]; [done| |]; rewrite !filter_cons.
  - destruct (decide (P x)); [by constructor|done].
  - destruct (decide (P x)); [by constructor|done].
Qed.

End PyFacts.

(** ** Facts about the service *)

Module ServerFacts.
Import Py PyFacts Server.

Lemma split1_comma s :
  contains "," s = true →
  ∃ header data, split1 "," s = [header; data] ∧
    s = header +:+ "," +:+ data ∧ contains "," header = false.
Proof.
  induction s as [|c s IH]; simpl; [done|].
  destruct (Ascii.eqb_spec c ",") as [->|Hc].
  - intros _. by exists EmptyString, s.
  - intros (header & data & -> & -> & Hh)%IH.
    exists (String c header), data. split_and!; [done..|].
    simpl. by rewrite (proj2 (Ascii.eqb_neq _ _) Hc).
Qed.

Lemma contains_comma_app header data :
  contains "," (header +:+ "," +:+ data) = true.
Proof.
  induction header as [|c h IH]; simpl; [done|]. by destruct (Ascii.eqb c ",").
Qed.

Lemma split1_comma_app header data :
  contains "," header = false →
  split1 "," (header +:+ "," +:+ data) = [header; data].
Proof.
  induction header as [|c h IH]; simpl; [done|].
  destruct (Ascii.eqb c ","); [done|]. intros Hh. by rewrite (IH Hh).
Qed.

Lemma payload_of_split s data :
  payload_of s data →
  (contains "," s = true ∧ ∃ header, split1 "," s = [header; data]) ∨
  (contains "," s = false ∧ data = s).
Proof.
  intros [header d Hh|d Hd]; [left|by right].
  split; [apply contains_comma_app|]. exists header. by apply split1_comma_app.
Qed.

Lemma payload_of_functional s d1 d2 : payload_of s d1 → payload_of s d2 → d1 = d2.
Proof.
  intros [[H1 [h1 Hs1]]|[H1 ->]]%payload_of_split
         [[H2 [h2 Hs2]]|[H2 ->]]%payload_of_split; congruence.
Qed.

Lemma decode_image_payload env s data :
  payload_of s data →
  decode_image env s =
    match b64decode env data with
    | None => Raise (ValueError "Invalid base64 string")
    | Some raw =>
        match imdecode env raw with
        | Cv2Raise msg => Raise (Cv2Error msg)
        | NoImage => Raise (ValueError "Unable to decode image")
        | Image frame => Ok frame
        end
    end.
Proof.
  intros Hp. unfold decode_image.
  destruct (contains "," s) eqn:Hc.
  - destruct (split1_comma s Hc) as (h & d & -> & Hs & Hh).
    assert (d = data) as ->; [|done].
    eapply payload_of_functional; [|exact Hp]. rewrite Hs. by constructor.
  - assert (s = data) as ->; [|done].
    eapply payload_of_functional; [|exact Hp]. by constructor.
Qed.

Lemma payload_of_total s : ∃ data, payload_of s data.
Proof.
  destruct (contains "," s) eqn:Hc.
  - destruct (split1_comma s Hc) as (h & d & _ & -> & Hh). exists d. by constructor.
  - exists s. by constructor.
Qed.

Lemma contains_false s (sep : ascii) :
  sep ∉ list_ascii_of_string s → contains sep s = false.
Proof.
  induction s as [|c s IH]; simpl; [done|].
  intros [Hc Hs]%not_elem_of_cons.
  destruct (Ascii.eqb_spec c sep) as [->|_]; [done|by apply IH].
Qed.

Lemma format_detections_Permutation env result :
  format_detections env result ≡ₚ detection_of env (names result) <$> boxes result.
Proof. apply sorted_Permutation. Qed.

Lemma load_equipment_data_snoc lower data k v :
  load_equipment_data lower (Some (data ++ [(k, v)])) =
  <[lower k := v]> (load_equipment_data lower (Some data)).
Proof. unfold load_equipment_data. by rewrite foldl_app. Qed.

Lemma load_equipment_data_lookup lower data key :
  load_equipment_data lower (Some data) !! key =
  snd <$> last (filter (λ kv, lower kv.1 = key) data).
Proof.
  induction data as [|[k v] data IH] using rev_ind; [done|].
  rewrite load_equipment_data_snoc, filter_app, filter_cons, filter_nil. simpl.
  destruct (decide (lower k = key)) as [<-|Hne].
  - by rewrite lookup_insert_eq, last_snoc.
  - by rewrite lookup_insert_ne, app_nil_r.
Qed.

Lemma confidence_detection_of env names box :
  confidence (detection_of env names box) = round (conf box) 3.
Proof. unfold detection_of. by destruct (xyxy box) as [[[? ?] ?] ?]. Qed.

(** The detections with a given confidence, before and after the sort. *)
Lemma format_detections_filter env result c :
  filter (λ d, confidence d == c)%Q (format_detections env result) =
  filter (λ d, confidence d == c)%Q
    (detection_of env (names result) <$> boxes result).
Proof. apply sorted_filter. intros a b Ha Hb. by rewrite Ha, Hb. Qed.

(** Two boxes with the same rounded confidence keep their order. *)
Lemma same_rounding_keeps_order env result a b :
  [a; b] `sublist_of` boxes result →
  round (conf a) 3 = round (conf b) 3 →
  [detection_of env (names result) a; detection_of env (names result) b]
    `sublist_of` format_detections env result.
Proof.
  intros Hsub Hround.
  set (P := λ d : Detection, (confidence d == round (conf a) 3)%Q).
  transitivity (filter P (format_detections env result)); [|apply sublist_filter].
  unfold P. rewrite format_detections_filter. fold P.
  apply (fmap_sublist (detection_of env (names result))) in Hsub.
  apply (filter_sublist_mono P) in Hsub. simpl in Hsub.
  rewrite filter_cons_True, filter_cons_True, filter_nil in Hsub; [done|..];
    unfold P; by rewrite confidence_detection_of, ?Hround.
Qed.

End ServerFacts.

(** ** The properties of the pipeline *)

Module Pipeline.
Import Py PyFacts Server ServerFacts Sample.

(** The rest of the handler once the frame is decoded and the model has
    returned at least one result. *)
Lemma scan_decoded env req frame result rest :
  decode_image env (image req) = Ok frame →
  model env frame (3 # 10) = result :: rest →
  scan env req =
    Ok {| found := (0 <? length (format_detections env result))%nat;
          count := length (format_detections env result);
          detections := format_detections env result |}.
Proof. unfold scan. by intros -> ->. Qed.

(** A model that returns no result at all is a server error. *)
Lemma scan_no_results env req frame :
  decode_image env (image req) = Ok frame →
  model env frame (3 # 10) = [] →
  scan env req = Raise (HTTPException 500 "Model did not return results").
Proof. unfold scan. by intros -> ->. Qed.

(** What the handler answers to a request once the payload is known. *)
Lemma scan_payload env data_url data :
  payload_of data_url data →
  scan env {| image := data_url |} =
    match b64decode env data with
    | None => Raise (HTTPException 400 "Invalid base64 string")
    | Some raw =>
        match imdecode env raw with
        | Cv2Raise msg => Raise (Cv2Error msg)
        | NoImage => Raise (HTTPException 400 "Unable to decode image")
        | Image frame =>
            match model env frame (3 # 10) with
            | [] => Raise (HTTPException 500 "Model did not return results")
            | result :: _ =>
                Ok {| found := (0 <? length (format_detections env result))%nat;
                      count := length (format_detections env result);
                      detections := format_detections env result |}
            end
        end
    end.
Proof.
  intros Hp. unfold scan. simpl. rewrite (decode_image_payload env _ data Hp).
  destruct (b64decode env data) as [raw|]; [|done].
  by destruct (imdecode env raw).
Qed.

(** C1, at the failing input.  [base64.b64decode] turns the empty payload
    into a buffer without bytes, and [cv2.imdecode] raises [cv2.error] for
    such a buffer instead of returning [None].  For the request string
    without characters, and for a data URL that ends at its comma, the
    handler then answers neither with status 400 nor with a decode
    message: the [cv2.error] leaves [decode_image] and [scan] uncaught,
    while a request without comma whose buffer [cv2.imdecode] turns into
    [None] is answered with status 400. *)
Theorem empty_payload_not_client_error (env : Env) (msg : string) :
  b64decode env "" = Some [] →
  imdecode env [] = Cv2Raise msg →
  decode_image env "" = Raise (Cv2Error msg) ∧
  scan env {| image := "" |} = Raise (Cv2Error msg) ∧
  scan env {| image := "data:image/png;base64," |} = Raise (Cv2Error msg) ∧
  (∀ data_url raw, ","%char ∉ list_ascii_of_string data_url →
     b64decode env data_url = Some raw →
     imdecode env raw = NoImage →
     scan env {| image := data_url |} =
       Raise (HTTPException 400 "Unable to decode image")).
Proof.
  intros Hb Hi. split_and!.
  - unfold decode_image. simpl. by rewrite Hb, Hi.
  - unfold scan, decode_image. simpl. by rewrite Hb, Hi.
  - unfold scan, decode_image. simpl. by rewrite Hb, Hi.
  - intros data_url raw Hc Hraw Hno.
    rewrite (scan_payload env data_url data_url
               (payload_whole _ (contains_false _ _ Hc))).
    by rewrite Hraw, Hno.
Qed.

Lemma empty_payload_not_client_error_witness :
  scan sample_env {| image := "" |} =
    Raise (Cv2Error "(-215:Assertion failed) !buf.empty() in function 'imdecode_'") ∧
  scan sample_env {| image := "xAAA" |} =
    Raise (HTTPException 400 "Unable to decode image").
Proof.
  split; [|reflexivity].
  apply (empty_payload_not_client_error sample_env); reflexivity.
Defined.

(** C2. The detections [format_detections] returns are in descending
    order of confidence: each one has a confidence at least that of the
    next. *)
Theorem format_detections_descending (env : Env) (result : Results)
    (i : nat) (d1 d2 : Detection) :
  format_detections env result !! i = Some d1 →
  format_detections env result !! S i = Some d2 →
  (confidence d2 <= confidence d1)%Q.
Proof.
  intros H1 H2.
  apply (StronglySorted_lookup (descending confidence)
           (format_detections env result) i (S i) d1 d2);
    [apply sorted_reverse_descending|lia|done..].
Qed.

Lemma format_detections_descending_witness :
  ∃ d1 d2,
    format_detections sample_env sample_results !! 0%nat = Some d1 ∧
    format_detections sample_env sample_results !! 1%nat = Some d2 ∧
    (confidence d2 <= confidence d1)%Q.
Proof.
  eexists _, _. split; [reflexivity|]. split; [reflexivity|].
  apply (format_detections_descending sample_env sample_results 0); reflexivity.
Defined.

(** C3. The sort is stable: for every confidence value, the detections
    with that confidence come out in the order in which the detector
    emitted their boxes; and of two boxes with equal confidence, the record
    of the one emitted first comes first in the output. *)
Theorem format_detections_stable (env : Env) (result : Results) :
  (∀ c : Q,
     filter (λ d, confidence d == c)%Q (format_detections env result) =
     filter (λ d, confidence d == c)%Q
       (detection_of env (names result) <$> boxes result)) ∧
  (∀ a b : Box,
     [a; b] `sublist_of` boxes result →
     (conf a == conf b)%Q →
     [detection_of env (names result) a; detection_of env (names result) b]
       `sublist_of` format_detections env result).
Proof.
  split.
  - apply format_detections_filter.
  - intros a b Hsub Heq. apply same_rounding_keeps_order; [done|].
    by apply round_proper.
Qed.

Lemma detection_of_elem_of env result box :
  box ∈ boxes result →
  detection_of env (names result) box ∈ format_detections env result.
Proof.
  intros Hbox. rewrite format_detections_Permutation. by apply list_elem_of_fmap_2.
Qed.

(** C4 (as amended). In the service, every box has its record among the
    detections, and the confidence of the record is the multiple of
    1/1000 nearest to the confidence of the box, the even multiple when
    the box lies half-way between two.  The overlay loop keeps no record:
    it prints the confidence with two decimals after the class name. *)
Theorem service_confidence_three_decimals (env : Env) (result : Results) (box : Box) :
  box ∈ boxes result →
  detection_of env (names result) box ∈ format_detections env result ∧
  (∃ m : Z,
     confidence (detection_of env (names result) box) = (m # 1000)%Q ∧
     ((m # 1000) - (1 # 2000) <= conf box <= (m # 1000) + (1 # 2000))%Q ∧
     ((conf box == (m # 1000) - (1 # 2000) ∨
       conf box == (m # 1000) + (1 # 2000))%Q → Z.even m = true)) ∧
  (∀ name, names result !! int_of_float (cls box) = Some name →
     Webcam.box_label (names result) box = Ok (name +:+ " " +:+ format_f 2 (conf box))).
Proof.
  intros Hbox. split_and!.
  - by apply detection_of_elem_of.
  - unfold detection_of. destruct (xyxy box) as [[[? ?] ?] ?]. simpl.
    apply round_3_spec.
  - intros name Hname. unfold Webcam.box_label. by rewrite Hname.
Qed.

Lemma service_confidence_three_decimals_witness :
  detection_of sample_env sample_names box_a
    ∈ format_detections sample_env sample_results ∧
  confidence (detection_of sample_env sample_names box_a) = (123 # 1000)%Q.
Proof.
  split; [|reflexivity].
  apply (service_confidence_three_decimals sample_env sample_results box_a).
  apply list_elem_of_here.
Defined.

(** C4, counterexample. For the box of class 0 and confidence 0.1231 the
    service stores 0.123, and the overlay loop prints [0.12], not the
    three decimals [0.123]. *)
Lemma overlay_label_two_decimals :
  confidence (detection_of sample_env sample_names box_a) = (123 # 1000)%Q ∧
  format_f 3 (conf box_a) = "0.123"%string ∧
  Webcam.box_label sample_names box_a = Ok "Wrench 0.12"%string ∧
  Webcam.box_label sample_names box_a
    ≠ Ok ("Wrench" +:+ " " +:+ format_f 3 (conf box_a)).
Proof. split_and!; [reflexivity..|]. vm_compute. discriminate. Qed.

Lemma detection_label_known env names box name :
  names !! int_of_float (cls box) = Some name →
  label (detection_of env names box) = name.
Proof.
  intros Hname. unfold detection_of. destruct (xyxy box) as [[[? ?] ?] ?]. simpl.
  by rewrite Hname.
Qed.

Lemma detection_label_unknown env names box :
  names !! int_of_float (cls box) = None →
  label (detection_of env names box) = "class_" +:+ str_of_int (int_of_float (cls box)).
Proof.
  intros Hname. unfold detection_of. destruct (xyxy box) as [[[? ?] ?] ?]. simpl.
  by rewrite Hname.
Qed.

Lemma box_label_unknown names box :
  names !! int_of_float (cls box) = None →
  Webcam.box_label names box = Raise (KeyError (int_of_float (cls box))).
Proof. intros Hname. unfold Webcam.box_label. by rewrite Hname. Qed.

(** C5, at the failing input. With the name table [{0: "Wrench", 1:
    "Drill"}] and a box of class 7, the service labels the detection
    [class_7], and the overlay loop raises [KeyError]. *)
Theorem overlay_label_unknown_class :
  sample_names !! int_of_float (cls box_c) = None ∧
  label (detection_of sample_env sample_names box_c) = "class_7"%string ∧
  Webcam.box_label sample_names box_c = Raise (KeyError 7).
Proof. split_and!; reflexivity. Qed.

(** C6. With the table loaded from the JSON document, the details of a
    label are the value of the last item of the document whose lower-cased
    key is the lower-cased label, and null when there is no such item or
    no document: the match is exact, on lower-cased texts.  Every key of
    the table is the lower-cased key of an item; labels with the same
    lower-cased text get the same details; and, [str.lower] being what it
    is on ASCII texts, an entry keyed [wrench] is found for [Wrench],
    [WRENCH] and [wrench]. *)
Theorem attach_details_lookup (env : Env) (file : option (list (string * json)))
    (label : string) :
  equipment_db env = load_equipment_data (str_lower env) file →
  (∀ s, isascii s = true → str_lower env s = ascii_lower s) →
  attach_details env label =
    match file with
    | Some data =>
        match last (filter (λ kv, str_lower env kv.1 = str_lower env label) data) with
        | Some kv => kv.2
        | None => JNull
        end
    | None => JNull
    end ∧
  (equipment_db env !! str_lower env label = None → attach_details env label = JNull) ∧
  (∀ v, equipment_db env !! str_lower env label = Some v →
     attach_details env label = v) ∧
  (∀ key, is_Some (equipment_db env !! key) →
     ∃ data kv, file = Some data ∧ kv ∈ data ∧ key = str_lower env kv.1) ∧
  (∀ label', str_lower env label' = str_lower env label →
     attach_details env label' = attach_details env label) ∧
  (∀ v, equipment_db env !! "wrench"%string = Some v →
     attach_details env "Wrench" = v ∧
     attach_details env "WRENCH" = v ∧
     attach_details env "wrench" = v).
Proof.
  intros Hdb Hascii. unfold attach_details. split_and!.
  - rewrite Hdb. destruct file as [data|]; [|done].
    rewrite load_equipment_data_lookup. by destruct (last _).
  - by intros ->.
  - by intros v ->.
  - intros key. rewrite Hdb. destruct file as [data|]; [|by intros [? ?]].
    rewrite load_equipment_data_lookup. intros [v Hv].
    destruct (last _) as [kv|] eqn:Hlast; [|done].
    apply last_Some_elem_of, list_elem_of_filter in Hlast as [<- Hin].
    by exists data, kv.
  - by intros label' ->.
  - intros v Hv.
    rewrite (Hascii "Wrench"%string eq_refl), (Hascii "WRENCH"%string eq_refl),
      (Hascii "wrench"%string eq_refl).
    change (ascii_lower "Wrench") with "wrench"%string.
    change (ascii_lower "WRENCH") with "wrench"%string.
    change (ascii_lower "wrench") with "wrench"%string.
    by rewrite Hv.
Qed.

Lemma attach_details_lookup_witness :
  attach_details sample_env "WRENCH" = wrench_details ∧
  attach_details sample_env "Drill" = JNull.
Proof.
  split; [|reflexivity].
  apply (attach_details_lookup sample_env (Some sample_file) "WRENCH");
    intros; reflexivity.
Defined.

(** C7. In every successful response [count] is the number of
    detections, and [found] is true exactly when [count] is positive. *)
Theorem scan_count_found (env : Env) (req : ScanRequest) (resp : ScanResponse) :
  scan env req = Ok resp →
  count resp = length (detections resp) ∧
  (found resp = true ↔ (0 < count resp)%nat).
Proof.
  unfold scan.
  destruct (decode_image env (image req)) as [frame|[]]; [|done..].
  destruct (model env frame (3 # 10)) as [|result rest]; [done|].
  intros [= <-]. simpl. split; [done|]. apply Nat.ltb_lt.
Qed.

Lemma scan_count_found_witness :
  ∃ resp, scan sample_env {| image := "data:image/png;base64,AAAA" |} = Ok resp ∧
    count resp = 3%nat ∧ found resp = true.
Proof.
  eexists. split; [reflexivity|].
  split; [reflexivity|].
  apply (scan_count_found sample_env {| image := "data:image/png;base64,AAAA" |});
    [reflexivity|simpl; lia].
Defined.

(** C8. When the image decodes and the result the model returns for it
    has no boxes, the handler succeeds with [found] false, [count] 0 and
    no detections. *)
Theorem scan_no_detections (env : Env) (req : ScanRequest) (frame : ndarray)
    (result : Results) (rest : list Results) :
  decode_image env (image req) = Ok frame →
  model env frame (3 # 10) = result :: rest →
  boxes result = [] →
  scan env req = Ok {| found := false; count := 0; detections := [] |}.
Proof.
  intros Hd Hm Hb. rewrite (scan_decoded env req frame result rest Hd Hm).
  unfold format_detections. by rewrite Hb.
Qed.

Lemma scan_no_detections_witness :
  scan sample_env {| image := "eAAA" |} =
    Ok {| found := false; count := 0; detections := [] |}.
Proof.
  apply (scan_no_detections sample_env {| image := "eAAA" |}
           [[[255; 255; 255]]] (mkResults sample_names []) []); reflexivity.
Defined.

(** C10. The sort compares the rounded confidences: when a box is emitted
    before another one, their confidences differ and round to the same
    three decimals, the record of the first comes before the record of the
    second in the output; ordering the boxes by their raw confidence would
    instead put the second first when its raw confidence is the larger. *)
Theorem rounding_ties_keep_emission_order (env : Env) (result : Results) (a b : Box) :
  [a; b] `sublist_of` boxes result →
  ¬ (conf a == conf b)%Q →
  round (conf a) 3 = round (conf b) 3 →
  [detection_of env (names result) a; detection_of env (names result) b]
    `sublist_of` format_detections env result ∧
  ((conf a < conf b)%Q → [b; a] `sublist_of` sorted conf true (boxes result)).
Proof.
  intros Hsub _ Hround. split; [by apply same_rounding_keeps_order|].
  apply sublist_subseteq in Hsub.
  apply sorted_reverse_strict; apply Hsub; set_solver.
Qed.

Lemma rounding_ties_keep_emission_order_witness :
  (conf box_a < conf box_b)%Q ∧
  [detection_of sample_env sample_names box_a;
   detection_of sample_env sample_names box_b]
    `sublist_of` format_detections sample_env sample_results.
Proof.
  split; [reflexivity|].
  apply (rounding_ties_keep_emission_order sample_env sample_results box_a box_b).
  - repeat constructor.
  - vm_compute. discriminate.
  - reflexivity.
Defined.

(** Sorting the same two boxes by their raw confidence would put the
    second first. *)
Example raw_order_differs :
  sorted conf true [box_a; box_b] = [box_b; box_a] ∧
  sorted (λ x, round (conf x) 3) true [box_a; box_b] = [box_a; box_b].
Proof. split; reflexivity. Qed.

End Pipeline.

(** ** Further properties of the builtins *)

Module PyProps.
Import Py PyFacts.

Lemma filter_none {A} (P : A → Prop) `{!∀ x, Decision (P x)} (l : list A) :
  Forall (λ x, ¬ P x) l → filter P l = [].
Proof.
  induction 1 as [|x l Hx _ IH]; [done|]. by rewrite filter_cons_False.
Qed.

(** X1. [s.split(sep, 1)] loses nothing: joining its parts with [sep] gives
    [s] back, and it has two parts when [sep] occurs in [s] and one when it
    does not. *)
Theorem split1_join (sep : ascii) (s : string) :
  String.concat (String sep EmptyString) (split1 sep s) = s ∧
  length (split1 sep s) = (if contains sep s then 2 else 1)%nat.
Proof.
  induction s as [|c s [IHj IHl]]; simpl; [done|].
  destruct (Ascii.eqb_spec c sep) as [->|Hc]; [done|].
  destruct (split1 sep s) as [|hd [|hd' tl]]; simpl in *.
  - by destruct (contains sep s).
  - split; [by rewrite IHj|done].
  - split; [by rewrite <- IHj|done].
Qed.

Lemma round_half_even_mono x y : (x <= y)%Q → round_half_even x <= round_half_even y.
Proof.
  intros Hxy.
  destruct (Z_le_gt_dec (round_half_even x) (round_half_even y)) as [|Hgt]; [done|].
  pose proof (round_half_even_near x) as [Hx _].
  pose proof (round_half_even_near y) as [_ Hy].
  assert (Hz : (inject_Z (round_half_even y) + 1 <= inject_Z (round_half_even x))%Q).
  { change 1%Q with (inject_Z 1). rewrite <- inject_Z_plus, <- Zle_Qle. lia. }
  assert (Heq : (x == y)%Q).
  { generalize dependent (inject_Z (round_half_even x)).
    generalize dependent (inject_Z (round_half_even y)). intros. lra. }
  rewrite (round_half_even_proper _ _ Heq) in Hgt. lia.
Qed.

Lemma scale_pos n : (0 < inject_Z (10 ^ Z.of_nat n))%Q.
Proof.
  change 0%Q with (inject_Z 0). rewrite <- Zlt_Qlt. apply Z.pow_pos_nonneg; lia.
Qed.

Lemma round_mono (x y : Q) (ndigits : nat) :
  (x <= y)%Q → (round x ndigits <= round y ndigits)%Q.
Proof.
  intros Hxy. unfold round, Qle. simpl.
  apply Z.mul_le_mono_nonneg_r; [lia|].
  apply round_half_even_mono.
  apply Qmult_le_compat_r; [done|]. apply Qlt_le_weak, scale_pos.
Qed.

Lemma round_half_even_Z (m : Z) : round_half_even (inject_Z m) = m.
Proof.
  unfold round_half_even. rewrite Qfloor_Z.
  destruct (Qcompare_spec (inject_Z m - inject_Z m) (1 # 2)) as [H|H|H]; [|done|];
    generalize dependent (inject_Z m); intros; lra.
Qed.

Lemma pos_scale n : Z.pos (Pos.of_nat (10 ^ n)) = 10 ^ Z.of_nat n.
Proof.
  assert (10 ^ n ≠ 0)%nat by (apply Nat.pow_nonzero; lia).
  replace (10 ^ Z.of_nat n) with (Z.of_nat (10 ^ n)) by (by rewrite Nat2Z.inj_pow).
  destruct (10 ^ n)%nat as [|k] eqn:Hk; [done|].
  by rewrite <- Pos.of_nat_succ, Zpos_P_of_succ_nat, Nat2Z.inj_succ.
Qed.

Lemma round_round (x : Q) (ndigits : nat) :
  round (round x ndigits) ndigits = round x ndigits.
Proof.
  set (m := round_half_even (x * inject_Z (10 ^ Z.of_nat ndigits))).
  assert (Hr : round x ndigits = Qmake m (Pos.of_nat (10 ^ ndigits))) by done.
  unfold round at 1. rewrite Hr. f_equal.
  etransitivity; [|apply (round_half_even_Z m)].
  apply round_half_even_proper.
  rewrite Qmake_Qdiv, pos_scale.
  field. pose proof (scale_pos ndigits). lra.
Qed.

Lemma int_of_float_nonneg x : (0 <= x)%Q → int_of_float x = Qfloor x.
Proof.
  destruct x as [p q]. unfold Qle, int_of_float, Qfloor. simpl. intros Hp.
  apply Z.quot_div_nonneg; lia.
Qed.

Lemma int_of_float_nonpos x : (x <= 0)%Q → int_of_float x = Qceiling x.
Proof.
  destruct x as [p q]. unfold Qle, int_of_float, Qceiling, Qfloor. simpl. intros Hp.
  rewrite <- (Z.opp_involutive p) at 1. rewrite Z.quot_opp_l by done.
  f_equal. apply Z.quot_div_nonneg; lia.
Qed.

Lemma int_of_float_integer (x : Q) (n : Z) : (x == inject_Z n)%Q → int_of_float x = n.
Proof.
  intros Hx. destruct (Qlt_le_dec x 0) as [Hneg|Hpos].
  - rewrite int_of_float_nonpos by by apply Qlt_le_weak.
    by rewrite (Qceiling_comp _ _ Hx), Qceiling_Z.
  - rewrite int_of_float_nonneg by done.
    by rewrite (Qfloor_comp _ _ Hx), Qfloor_Z.
Qed.

Lemma int_of_float_mono x y : (x <= y)%Q → int_of_float x <= int_of_float y.
Proof.
  intros Hxy.
  destruct (Qlt_le_dec x 0) as [Hx|Hx]; destruct (Qlt_le_dec y 0) as [Hy|Hy].
  - rewrite !int_of_float_nonpos by by apply Qlt_le_weak.
    by apply Qceiling_resp_le.
  - rewrite int_of_float_nonpos by by apply Qlt_le_weak.
    rewrite int_of_float_nonneg by done.
    transitivity 0.
    + change 0 with (Qceiling 0). apply Qceiling_resp_le. by apply Qlt_le_weak.
    + change 0 with (Qfloor 0). by apply Qfloor_resp_le.
  - exfalso. apply (Qlt_irrefl 0). eapply Qle_lt_trans; [exact Hx|].
    eapply Qle_lt_trans; [exact Hxy|done].
  - rewrite !int_of_float_nonneg by done. by apply Qfloor_resp_le.
Qed.

Lemma int_of_float_near x :
  (x - 1 < inject_Z (int_of_float x) < x + 1)%Q.
Proof.
  destruct (Qlt_le_dec x 0) as [Hx|Hx].
  - rewrite int_of_float_nonpos by by apply Qlt_le_weak.
    pose proof (Qle_ceiling x). pose proof (Qceiling_lt x) as Hc.
    unfold Z.sub in Hc. rewrite inject_Z_plus, inject_Z_opp in Hc.
    change (inject_Z 1) with 1%Q in Hc.
    generalize dependent (inject_Z (Qceiling x)). intros; lra.
  - rewrite int_of_float_nonneg by done.
    pose proof (Qfloor_le x). pose proof (Qlt_floor x) as Hc.
    rewrite inject_Z_plus in Hc. change (inject_Z 1) with 1%Q in Hc.
    generalize dependent (inject_Z (Qfloor x)). intros; lra.
Qed.

(** The text [format_f 2] prints for a float between 0 and 1: the three
    digits of its rounded hundredths. *)
Lemma format_f_2_unit x :
  (0 <= x <= 1)%Q →
  0 <= round_half_even (x * 100) <= 100 ∧
  format_f 2 x =
    let h := round_half_even (x * 100) in
    digit (h / 100) +:+ "." +:+ digit (h / 10 mod 10) +:+ digit (h mod 10).
Proof.
  intros [H0 H1].
  assert (Hh : 0 <= round_half_even (x * 100) <= 100).
  { assert (Hlo : (0 <= x * 100)%Q) by lra.
    assert (Hhi : (x * 100 <= 100)%Q) by lra.
    apply round_half_even_mono in Hlo, Hhi. done. }
  split; [done|].
  unfold format_f. rewrite (proj2 (Qle_bool_iff 0 x) H0).
  rewrite (round_half_even_proper (Qabs x * inject_Z (10 ^ Z.of_nat 2)) (x * 100))
    by by rewrite Qabs_pos.
  generalize dependent (round_half_even (x * 100)). intros h Hh.
  assert (Hall : Forall (λ h,
             ("" +:+ pretty (h / 10 ^ Z.of_nat 2) +:+ "." +:+
                zeros (2 - String.length (pretty (h mod 10 ^ Z.of_nat 2))) +:+
                pretty (h mod 10 ^ Z.of_nat 2))%string =
             digit (h / 100) +:+ "." +:+ digit (h / 10 mod 10) +:+ digit (h mod 10))
           (seqZ 0 101)).
  { vm_compute. repeat constructor. }
  rewrite Forall_seqZ in Hall. apply Hall. lia.
Qed.

End PyProps.

(** ** Further properties of the service *)

Module ServiceProps.
Import Py PyFacts PyProps Server ServerFacts Sample MoreSamples Pipeline.

(** X2. Rounding keeps the order of the raw confidences: a box with at most
    the confidence of another gets at most its stored confidence. *)
Theorem confidence_monotone (env : Env) (names : gmap Z string) (a b : Box) :
  (conf a <= conf b)%Q →
  (confidence (detection_of env names a) <= confidence (detection_of env names b))%Q.
Proof. intros Hab. rewrite !confidence_detection_of. by apply round_mono. Qed.

Lemma confidence_monotone_witness :
  (confidence (detection_of sample_env sample_names box_a)
     <= confidence (detection_of sample_env sample_names box_c))%Q.
Proof.
  apply (confidence_monotone sample_env sample_names box_a box_c).
  vm_compute. discriminate.
Defined.

(** X3. A stored confidence is a fixed point of the rounding: rounding it
    to three decimals again changes nothing. *)
Theorem confidence_rounded_once (env : Env) (names : gmap Z string) (box : Box) :
  round (confidence (detection_of env names box)) 3 =
  confidence (detection_of env names box).
Proof. rewrite confidence_detection_of. apply round_round. Qed.

(** X4. A confidence between 0 and 1 is stored as a confidence between 0
    and 1. *)
Theorem confidence_unit_interval (env : Env) (names : gmap Z string) (box : Box) :
  (0 <= conf box <= 1)%Q →
  (0 <= confidence (detection_of env names box) <= 1)%Q.
Proof.
  intros [H0 H1]. rewrite confidence_detection_of. split.
  - apply Qle_trans with (round 0 3); [by vm_compute|by apply round_mono].
  - apply Qle_trans with (round 1 3); [by apply round_mono|by vm_compute].
Qed.

Lemma confidence_unit_interval_witness :
  (0 <= confidence (detection_of sample_env sample_names box_a) <= 1)%Q.
Proof.
  apply (confidence_unit_interval sample_env sample_names box_a).
  split; vm_compute; discriminate.
Defined.

(** X5. When [box.cls] holds a whole number [n], the label is the name of
    class [n], or [class_n] when the table has no such class. *)
Theorem label_of_integral_class (env : Env) (names : gmap Z string) (box : Box) (n : Z) :
  (cls box == inject_Z n)%Q →
  label (detection_of env names box) =
    default ("class_" +:+ str_of_int n) (names !! n).
Proof.
  intros Hn. unfold detection_of. destruct (xyxy box) as [[[? ?] ?] ?]. simpl.
  by rewrite (int_of_float_integer _ n Hn).
Qed.

Lemma label_of_integral_class_witness :
  label (detection_of sample_env sample_names box_d) = "class_9"%string.
Proof.
  apply (label_of_integral_class sample_env sample_names box_d 9). reflexivity.
Defined.

(** X6. Two boxes whose classes the table does not know get different
    fallback labels when their class ids differ. *)
Theorem fallback_labels_distinct (env : Env) (names : gmap Z string) (a b : Box) :
  names !! int_of_float (cls a) = None →
  names !! int_of_float (cls b) = None →
  int_of_float (cls a) ≠ int_of_float (cls b) →
  label (detection_of env names a) ≠ label (detection_of env names b).
Proof.
  intros Ha Hb Hne. rewrite !detection_label_unknown by done.
  unfold str_of_int. intros [= H]. by apply Hne, (inj pretty).
Qed.

Lemma fallback_labels_distinct_witness :
  label (detection_of sample_env sample_names box_c)
    ≠ label (detection_of sample_env sample_names box_d).
Proof.
  apply (fallback_labels_distinct sample_env sample_names box_c box_d);
    [reflexivity|reflexivity|vm_compute; discriminate].
Defined.

(** X7. A successful scan reports every box once: the detections are a
    rearrangement of the records of the boxes of the first result, [count]
    is the number of boxes, and [found] is false exactly when there is no
    box. *)
Theorem scan_keeps_every_box (env : Env) (req : ScanRequest) (frame : ndarray)
    (result : Results) (rest : list Results) :
  decode_image env (image req) = Ok frame →
  model env frame (3 # 10) = result :: rest →
  ∃ resp, scan env req = Ok resp ∧
    detections resp ≡ₚ detection_of env (names result) <$> boxes result ∧
    count resp = length (boxes result) ∧
    (found resp = false ↔ boxes result = []).
Proof.
  intros Hd Hm. eexists. split; [by apply (scan_decoded env req frame result rest)|].
  simpl. pose proof (format_detections_Permutation env result) as Hp.
  split; [done|].
  assert (Hlen : length (format_detections env result) = length (boxes result)).
  { by rewrite Hp, length_fmap. }
  split; [done|]. rewrite Hlen.
  destruct (boxes result); simpl; split; done.
Qed.

Lemma scan_keeps_every_box_witness :
  ∃ resp, scan sample_env {| image := "AAAA" |} = Ok resp ∧ count resp = 3%nat.
Proof.
  destruct (scan_keeps_every_box sample_env {| image := "AAAA" |}
              [[[0; 0; 0]]] sample_results [] eq_refl eq_refl)
    as (resp & Hscan & _ & Hcount & _).
  by exists resp.
Defined.

(** X8. The handler raises an [HTTPException] in three cases only: status
    400 with the message of a [ValueError] of [decode_image], which is one
    of its two messages, and status 500 for a decoded frame on which the
    model returns no result. *)
Theorem scan_http_errors (env : Env) (req : ScanRequest) (status : Z) (detail : string) :
  scan env req = Raise (HTTPException status detail) →
  (status = 400 ∧
   decode_image env (image req) = Raise (ValueError detail) ∧
   (detail = "Invalid base64 string"%string ∨
    detail = "Unable to decode image"%string)) ∨
  (status = 500 ∧ detail = "Model did not return results"%string ∧
   ∃ frame, decode_image env (image req) = Ok frame ∧
     model env frame (3 # 10) = []).
Proof.
  destruct (payload_of_total (image req)) as [data Hp].
  unfold scan. rewrite (decode_image_payload env _ data Hp).
  destruct (b64decode env data) as [raw|].
  - destruct (imdecode env raw) as [frame| |msg]; [|intros [= <- <-]; auto|done].
    destruct (model env frame (3 # 10)) eqn:Hm; [|done].
    intros [= <- <-]. right. split_and!; [done..|]. by exists frame.
  - intros [= <- <-]. auto.
Qed.

Lemma scan_http_errors_witness :
  (400 = 400 ∧
   decode_image sample_env "A!AA" = Raise (ValueError "Invalid base64 string") ∧
   ("Invalid base64 string"%string = "Invalid base64 string"%string ∨
    "Invalid base64 string"%string = "Unable to decode image"%string)) ∨
  (400 = 500 ∧ "Invalid base64 string"%string = "Model did not return results"%string ∧
   ∃ frame, decode_image sample_env "A!AA" = Ok frame ∧
     model sample_env frame (3 # 10) = []).
Proof.
  apply (scan_http_errors sample_env {| image := "A!AA" |} 400 "Invalid base64 string").
  reflexivity.
Defined.

(** X9. The header of a data URL is never read: two request strings with
    the same text after their first comma decode alike. *)
Theorem decode_image_ignores_header (env : Env) (header1 header2 data : string) :
  contains "," header1 = false →
  contains "," header2 = false →
  decode_image env (header1 +:+ "," +:+ data) =
  decode_image env (header2 +:+ "," +:+ data).
Proof.
  intros H1 H2.
  rewrite (decode_image_payload env _ data (payload_after_comma header1 data H1)).
  by rewrite (decode_image_payload env _ data (payload_after_comma header2 data H2)).
Qed.

Lemma decode_image_ignores_header_witness :
  decode_image sample_env "data:image/png;base64,AAAA,BB" =
  decode_image sample_env "x,AAAA,BB".
Proof.
  apply (decode_image_ignores_header sample_env "data:image/png;base64" "x" "AAAA,BB");
    reflexivity.
Defined.

(** X10. The keys of the loaded table are the lower-cased keys of the
    document, all of them and no other, whatever [str.lower] does. *)
Theorem load_equipment_data_dom (lower : string → string)
    (data : list (string * json)) :
  dom (load_equipment_data lower (Some data)) =@{gset string}
    list_to_set ((λ kv, lower kv.1) <$> data).
Proof.
  induction data as [|[k v] data IH] using rev_ind; [done|].
  rewrite load_equipment_data_snoc, dom_insert_L, IH, fmap_app, list_to_set_app_L.
  simpl. rewrite union_empty_r_L. apply (comm_L (∪)).
Qed.

(** X11. When no two keys of the document have the same lower-cased text,
    every entry of the document is what [attach_details] returns for a
    label with the lower-cased text of its key. *)
Theorem load_then_attach (env : Env) (data : list (string * json))
    (k label : string) (v : json) :
  equipment_db env = load_equipment_data (str_lower env) (Some data) →
  NoDup ((λ kv, str_lower env kv.1) <$> data) →
  (k, v) ∈ data →
  str_lower env label = str_lower env k →
  attach_details env label = v.
Proof.
  intros Hdb Hnd Hin Hl. unfold attach_details. rewrite Hdb, Hl.
  rewrite load_equipment_data_lookup.
  apply list_elem_of_split in Hin as (l1 & l2 & ->).
  rewrite fmap_app, fmap_cons in Hnd. simpl in Hnd.
  apply NoDup_app in Hnd as (_ & Hl1 & [Hl2 _]%NoDup_cons).
  rewrite filter_app, filter_cons_True by done.
  assert (filter (λ kv : string * json, str_lower env kv.1 = str_lower env k) l2 = [])
    as ->.
  { apply filter_none, Forall_forall. intros kv Hkv Heq. apply Hl2.
    rewrite <- Heq.
    by apply (list_elem_of_fmap_2 (λ kv : string * json, str_lower env kv.1)). }
  by rewrite last_snoc.
Qed.

Lemma load_then_attach_witness :
  attach_details sample_env "wRENCH" = wrench_details.
Proof.
  apply (load_then_attach sample_env sample_file "Wrench" "wRENCH" wrench_details).
  - reflexivity.
  - apply NoDup_singleton.
  - apply list_elem_of_here.
  - reflexivity.
Defined.

(** X12. The first detection is a most confident one. *)
Theorem best_detection_first (env : Env) (result : Results) (d0 d : Detection) :
  head (format_detections env result) = Some d0 →
  d ∈ format_detections env result →
  (confidence d <= confidence d0)%Q.
Proof.
  pose proof (sorted_reverse_descending confidence
                (detection_of env (names result) <$> boxes result)) as Hs.
  fold (format_detections env result) in Hs.
  destruct (format_detections env result) as [|d1 l]; [done|].
  intros [= ->] [->|Hd]%elem_of_cons; [apply Qle_refl|].
  apply StronglySorted_cons in Hs as [Hall _].
  rewrite Forall_forall in Hall. exact (Hall d Hd).
Qed.

Lemma best_detection_first_witness :
  (confidence (detection_of sample_env sample_names box_b)
     <= confidence (detection_of sample_env sample_names box_c))%Q.
Proof.
  apply (best_detection_first sample_env sample_results); [reflexivity|].
  apply (list_elem_of_lookup_2 _ 2%nat). reflexivity.
Defined.

(** X13. A box whose stored confidence is strictly higher than that of
    another box comes before it in the output, wherever the detector
    emitted it. *)
Theorem higher_confidence_first (env : Env) (result : Results) (a b : Box) :
  a ∈ boxes result → b ∈ boxes result →
  (round (conf a) 3 < round (conf b) 3)%Q →
  [detection_of env (names result) b; detection_of env (names result) a]
    `sublist_of` format_detections env result.
Proof.
  intros Ha Hb Hlt. apply sorted_reverse_strict.
  - by apply list_elem_of_fmap_2.
  - by apply list_elem_of_fmap_2.
  - by rewrite !confidence_detection_of.
Qed.

Lemma higher_confidence_first_witness :
  [detection_of sample_env sample_names box_c;
   detection_of sample_env sample_names box_a]
    `sublist_of` format_detections sample_env sample_results.
Proof.
  apply (higher_confidence_first sample_env sample_results box_a box_c).
  - apply list_elem_of_here.
  - apply (list_elem_of_lookup_2 _ 2%nat). reflexivity.
  - reflexivity.
Defined.

(** X14. The ranking is determined by what it guarantees: a list in
    descending order of confidence that holds, for every confidence, the
    records of that confidence in the order of emission is the list
    [format_detections] returns. *)
Theorem format_detections_characterised (env : Env) (result : Results)
    (k : list Detection) :
  StronglySorted (descending confidence) k →
  (∀ c : Q, filter (λ d, confidence d == c)%Q k =
            filter (λ d, confidence d == c)%Q
              (detection_of env (names result) <$> boxes result)) →
  k = format_detections env result.
Proof. intros Hs Hc. by apply (sorted_unique confidence true). Qed.

Lemma format_detections_characterised_witness :
  ranked_sample = format_detections sample_env sample_results.
Proof.
  apply (format_detections_characterised sample_env sample_results ranked_sample).
  - unfold ranked_sample, descending.
    repeat (constructor; try (vm_compute; discriminate)).
  - intros c. unfold ranked_sample, sample_results. simpl boxes.
    rewrite !fmap_cons, !filter_cons, fmap_nil, filter_nil.
    rewrite !confidence_detection_of.
    change (round (conf box_a) 3) with (123 # 1000)%Q.
    change (round (conf box_b) 3) with (123 # 1000)%Q.
    change (round (conf box_c) 3) with (910 # 1000)%Q.
    destruct (decide (910 # 1000 == c)%Q) as [Hc|Hc];
      destruct (decide (123 # 1000 == c)%Q) as [Ha|Ha]; try reflexivity.
    exfalso. rewrite <- Ha in Hc. vm_compute in Hc. discriminate.
Defined.

(** X15. Ranking a ranked list again leaves it as it is. *)
Theorem rank_again_is_identity (env : Env) (result : Results) :
  sorted confidence true (format_detections env result) =
  format_detections env result.
Proof.
  symmetry. apply (sorted_unique confidence true); [apply sorted_reverse_descending|done].
Qed.

End ServiceProps.

(** ** Properties of the capture loop *)

Module OverlayProps.
Import Py PyFacts PyProps Server Webcam WebcamLoop Sample MoreSamples.

(** X16. The loop is left on a key code whose low byte is the code of [q]
    and on no other: [waitKey] answering -1 (no key) keeps it turning. *)
Theorem quit_key_low_byte (key : Z) :
  (quit_key key = true ↔ key mod 256 = 113) ∧ quit_key (-1) = false.
Proof.
  split; [|done]. unfold quit_key. rewrite Z.eqb_eq.
  change 255 with (Z.ones 8). by rewrite Z.land_ones by lia.
Qed.

(** X17. Once the loop has ended, nothing the camera or the keyboard still
    hold is used: more ticks change neither what was shown nor how the run
    ended. *)
Theorem run_stops_for_good (names : gmap Z string)
    (model : ndarray → Q → Z → list Results) (ticks more : list Tick) :
  (run names model ticks).2 ≠ Turning →
  run names model (ticks ++ more) = run names model ticks.
Proof.
  induction ticks as [|t ticks IH]; simpl; [done|].
  destruct (is_opened t); [|done].
  destruct (read t) as [frame|]; [|done].
  destruct (model frame (4 # 10) 960) as [|results ?]; [done|].
  destruct (draw_boxes names (boxes results)) as [calls|]; [|done].
  destruct (quit_key (wait_key t)); [done|].
  destruct (run names model ticks) as [shown st]. simpl. intros Hst.
  by rewrite (IH Hst).
Qed.

Lemma run_stops_for_good_witness :
  run sample_names camera_model (sample_ticks ++ sample_ticks) =
  run sample_names camera_model sample_ticks.
Proof.
  apply (run_stops_for_good sample_names camera_model sample_ticks sample_ticks).
  vm_compute. discriminate.
Defined.

Lemma draw_boxes_known names bs :
  Forall (λ b, is_Some (names !! int_of_float (cls b))) bs →
  ∃ calls, draw_boxes names bs = Ok calls ∧ length calls = (2 * length bs)%nat.
Proof.
  induction 1 as [|b bs [name Hb] _ (calls & Hcalls & Hlen)]; simpl; [by exists []|].
  unfold draw_box, box_label. destruct (box_corners b) as [[[? ?] ?] ?].
  rewrite Hb, Hcalls. eexists. split; [done|]. simpl. lia.
Qed.

Lemma draw_boxes_unknown names bs :
  Exists (λ b, names !! int_of_float (cls b) = None) bs →
  ∃ b, b ∈ bs ∧ names !! int_of_float (cls b) = None ∧
    draw_boxes names bs = Raise (KeyError (int_of_float (cls b))).
Proof.
  induction bs as [|b bs IH]; intros Hex; [by apply Exists_nil in Hex|].
  simpl. unfold draw_box at 1, box_label. destruct (box_corners b) as [[[? ?] ?] ?].
  destruct (names !! int_of_float (cls b)) as [name|] eqn:Hb.
  - apply Exists_cons in Hex as [Hex|Hex]; [congruence|].
    destruct (IH Hex) as (b' & Hin & Hnone & ->).
    exists b'. split_and!; [by right|done..].
  - exists b. split_and!; [by left|done..].
Qed.

Lemma draw_boxes_length names bs calls :
  draw_boxes names bs = Ok calls → length calls = (2 * length bs)%nat.
Proof.
  revert calls. induction bs as [|b bs IH]; simpl.
  - by intros ? [= <-].
  - unfold draw_box. destruct (box_corners b) as [[[? ?] ?] ?].
    destruct (box_label names b); [|done].
    destruct (draw_boxes names bs) as [calls'|]; [|done].
    intros ? [= <-]. simpl. rewrite (IH calls' eq_refl). lia.
Qed.

(** X18. When the model returns a result for every frame and names every
    class it reports, the loop never ends in an exception: it is left by
    the camera or the key, or it is still turning. *)
Theorem run_never_raises (names : gmap Z string)
    (model : ndarray → Q → Z → list Results) (ticks : list Tick) :
  (∀ frame, ∃ results rest,
     model frame (4 # 10) 960 = results :: rest ∧
     Forall (λ b, is_Some (names !! int_of_float (cls b))) (boxes results)) →
  (run names model ticks).2 = Released ∨ (run names model ticks).2 = Turning.
Proof.
  intros Hm. induction ticks as [|t ticks IH]; simpl; [by right|].
  destruct (is_opened t); [|by left].
  destruct (read t) as [frame|]; [|by left].
  destruct (Hm frame) as (results & rest & -> & Hall).
  destruct (draw_boxes_known names _ Hall) as (calls & -> & _).
  destruct (quit_key (wait_key t)); [by left|].
  by destruct (run names model ticks).
Qed.

Lemma run_never_raises_witness :
  (run sample_names camera_model sample_ticks).2 = Released ∨
  (run sample_names camera_model sample_ticks).2 = Turning.
Proof.
  apply (run_never_raises sample_names camera_model sample_ticks).
  intros frame. eexists _, _. split; [reflexivity|].
  repeat constructor; by eexists.
Defined.

(** X19. A frame in which the model reports a class the table does not
    name ends the script with [KeyError] for such a class: the frame is not
    shown, and the camera is not released. *)
Theorem run_unknown_class (names : gmap Z string)
    (model : ndarray → Q → Z → list Results) (tick : Tick) (ticks : list Tick)
    (frame : ndarray) (results : Results) (rest : list Results) :
  is_opened tick = true →
  read tick = Some frame →
  model frame (4 # 10) 960 = results :: rest →
  Exists (λ b, names !! int_of_float (cls b) = None) (boxes results) →
  ∃ b, b ∈ boxes results ∧ names !! int_of_float (cls b) = None ∧
    run names model (tick :: ticks) = ([], Uncaught (KeyError (int_of_float (cls b)))).
Proof.
  intros Ho Hr Hm Hex. simpl. rewrite Ho, Hr, Hm.
  destruct (draw_boxes_unknown names _ Hex) as (b & Hin & Hnone & ->).
  by exists b.
Qed.

Lemma run_unknown_class_witness :
  ∃ b, b ∈ [box_a; box_c] ∧ sample_names !! int_of_float (cls b) = None ∧
    run sample_names unnamed_model sample_ticks =
      ([], Uncaught (KeyError (int_of_float (cls b)))).
Proof.
  apply (run_unknown_class sample_names unnamed_model
           (mkTick true (Some black) (-1)) _ black
           (mkResults sample_names [box_a; box_c]) []); [reflexivity..|].
  apply Exists_cons_tl, Exists_cons_hd. reflexivity.
Defined.

Lemma run_goes_on names model tick ticks frame results rest calls :
  is_opened tick = true →
  read tick = Some frame →
  model frame (4 # 10) 960 = results :: rest →
  draw_boxes names (boxes results) = Ok calls →
  run names model (tick :: ticks) =
    if quit_key (wait_key tick) then ([(frame, calls)], Released)
    else ((frame, calls) :: (run names model ticks).1, (run names model ticks).2).
Proof.
  intros Ho Hr Hm Hd. simpl. rewrite Ho, Hr, Hm, Hd.
  destruct (quit_key (wait_key tick)); [done|].
  by destruct (run names model ticks).
Qed.

(** X20. What the loop shows, tick by tick.  Over ticks on each of which
    the camera is open, a frame is read, the model returns a result, every
    class is named and the key is not [q], the loop shows the frame of
    every tick, drawn on with two calls for every box, and goes on with
    the ticks that follow.  The first other tick ends the run: without
    its frame when the camera is closed or gives no frame, when the model
    returns no result, or when a class has no name; with its frame when
    the key is [q]. *)
Theorem run_shows_frames_read (names : gmap Z string)
    (model : ndarray → Q → Z → list Results)
    (pre : list Tick) (shown : list (ndarray * list draw)) :
  Forall2 (λ tick fc,
             is_opened tick = true ∧ read tick = Some fc.1 ∧
             quit_key (wait_key tick) = false ∧
             ∃ results rest, model fc.1 (4 # 10) 960 = results :: rest ∧
               draw_boxes names (boxes results) = Ok fc.2) pre shown →
  (∀ ticks, run names model (pre ++ ticks) =
     (shown ++ (run names model ticks).1, (run names model ticks).2)) ∧
  run names model pre = (shown, Turning) ∧
  (∀ tick post, is_opened tick = false ∨ read tick = None →
     run names model (pre ++ tick :: post) = (shown, Released)) ∧
  (∀ tick post frame, is_opened tick = true → read tick = Some frame →
     model frame (4 # 10) 960 = [] →
     run names model (pre ++ tick :: post) = (shown, NoResult)) ∧
  (∀ tick post frame results rest e, is_opened tick = true → read tick = Some frame →
     model frame (4 # 10) 960 = results :: rest →
     draw_boxes names (boxes results) = Raise e →
     run names model (pre ++ tick :: post) = (shown, Uncaught e)) ∧
  (∀ tick post frame results rest calls, is_opened tick = true →
     read tick = Some frame →
     model frame (4 # 10) 960 = results :: rest →
     draw_boxes names (boxes results) = Ok calls →
     quit_key (wait_key tick) = true →
     run names model (pre ++ tick :: post) = (shown ++ [(frame, calls)], Released)) ∧
  Forall (λ fc, ∃ results rest, model fc.1 (4 # 10) 960 = results :: rest ∧
            length fc.2 = (2 * length (boxes results))%nat) shown.
Proof.
  intros Hpre.
  assert (Happ : ∀ ticks, run names model (pre ++ ticks) =
            (shown ++ (run names model ticks).1, (run names model ticks).2)).
  { intros ticks.
    induction Hpre as [|tick fc pre shown (Ho & Hr & Hq & results & rest & Hm & Hd) _ IH].
    - simpl. by destruct (run names model ticks).
    - rewrite <- app_comm_cons, (run_goes_on _ _ _ _ _ _ _ _ Ho Hr Hm Hd), Hq, IH.
      by destruct fc. }
  split_and!.
  - done.
  - specialize (Happ []). rewrite app_nil_r in Happ. rewrite Happ. simpl.
    by rewrite app_nil_r.
  - intros tick post Hend. rewrite Happ. simpl.
    destruct Hend as [->| ->]; [by rewrite app_nil_r|].
    destruct (is_opened tick); by rewrite app_nil_r.
  - intros tick post frame Ho Hr Hm. rewrite Happ. simpl.
    by rewrite Ho, Hr, Hm, app_nil_r.
  - intros tick post frame results rest e Ho Hr Hm Hd. rewrite Happ. simpl.
    by rewrite Ho, Hr, Hm, Hd, app_nil_r.
  - intros tick post frame results rest calls Ho Hr Hm Hd Hq. rewrite Happ.
    by rewrite (run_goes_on _ _ _ _ _ _ _ _ Ho Hr Hm Hd), Hq.
  - clear Happ.
    induction Hpre as [|tick fc pre shown (_ & _ & _ & results & rest & Hm & Hd) _ IH];
      [constructor|].
    constructor; [|done].
    exists results, rest. split; [done|]. by apply (draw_boxes_length names).
Qed.

Lemma run_shows_frames_read_witness :
  run sample_names camera_model sample_ticks = ([sample_shown; sample_shown], Released).
Proof.
  destruct (run_shows_frames_read sample_names camera_model
              [mkTick true (Some black) (-1)] [sample_shown])
    as (_ & _ & _ & _ & _ & Hquit & _).
  - repeat constructor. by eexists _, _.
  - exact (Hquit (mkTick true (Some black) 113) [mkTick true (Some black) (-1)]
             black (mkResults sample_names [box_a; box_b]) [] sample_shown.2
             eq_refl eq_refl eq_refl eq_refl eq_refl).
Defined.

(** X21. The corners of the rectangle drawn lie less than one pixel from
    the corners of the box. *)
Theorem box_corners_within_pixel (box : Box) (a b c d : Q) (x1 y1 x2 y2 : Z) :
  xyxy box = (a, b, c, d) →
  box_corners box = (x1, y1, x2, y2) →
  (a - 1 < inject_Z x1 < a + 1)%Q ∧ (b - 1 < inject_Z y1 < b + 1)%Q ∧
  (c - 1 < inject_Z x2 < c + 1)%Q ∧ (d - 1 < inject_Z y2 < d + 1)%Q.
Proof.
  unfold box_corners. intros -> [= <- <- <- <-].
  split_and!; apply int_of_float_near.
Qed.

Lemma box_corners_within_pixel_witness :
  (1 - 1 < inject_Z 1 < 1 + 1)%Q.
Proof.
  apply (box_corners_within_pixel box_a 1 2 3 4 1 2 3 4); reflexivity.
Defined.

(** X22. A box with [x1 <= x2] and [y1 <= y2] is drawn as a rectangle with
    [x1 <= x2] and [y1 <= y2]. *)
Theorem box_corners_ordered (box : Box) (a b c d : Q) (x1 y1 x2 y2 : Z) :
  xyxy box = (a, b, c, d) →
  box_corners box = (x1, y1, x2, y2) →
  (a <= c)%Q → (b <= d)%Q →
  x1 <= x2 ∧ y1 <= y2.
Proof.
  unfold box_corners. intros -> [= <- <- <- <-] Hac Hbd.
  split; by apply int_of_float_mono.
Qed.

Lemma box_corners_ordered_witness : 1 <= 3 ∧ 2 <= 4.
Proof.
  apply (box_corners_ordered box_a 1 2 3 4 1 2 3 4);
    [reflexivity|reflexivity|vm_compute; discriminate..].
Defined.

(** X23. For a class the table names and a confidence between 0 and 1,
    the text drawn is the name, a space, and the confidence as one digit,
    a point and two digits: the digits of the whole number of hundredths
    nearest to the confidence, the even one on a tie. *)
Theorem box_label_text (names : gmap Z string) (box : Box) (name : string) :
  names !! int_of_float (cls box) = Some name →
  (0 <= conf box <= 1)%Q →
  ∃ h : Z, 0 <= h <= 100 ∧
    (inject_Z h - (1 # 2) <= conf box * 100 <= inject_Z h + (1 # 2))%Q ∧
    ((conf box * 100 == inject_Z h - (1 # 2) ∨
      conf box * 100 == inject_Z h + (1 # 2))%Q → Z.even h = true) ∧
    box_label names box =
      Ok (name +:+ " " +:+
          digit (h / 100) +:+ "." +:+ digit (h / 10 mod 10) +:+ digit (h mod 10)).
Proof.
  intros Hname Hconf.
  destruct (format_f_2_unit _ Hconf) as [Hh Hfmt].
  exists (round_half_even (conf box * 100)).
  split; [done|]. split; [apply round_half_even_near|].
  split; [apply round_half_even_tie|].
  unfold box_label. by rewrite Hname, Hfmt.
Qed.

Lemma box_label_text_witness :
  ∃ h : Z, 0 <= h <= 100 ∧
    (inject_Z h - (1 # 2) <= conf box_a * 100 <= inject_Z h + (1 # 2))%Q ∧
    ((conf box_a * 100 == inject_Z h - (1 # 2) ∨
      conf box_a * 100 == inject_Z h + (1 # 2))%Q → Z.even h = true) ∧
    box_label sample_names box_a =
      Ok ("Wrench" +:+ " " +:+
          digit (h / 100) +:+ "." +:+ digit (h / 10 mod 10) +:+ digit (h mod 10)).
Proof.
  apply (box_label_text sample_names box_a "Wrench"); [reflexivity|].
  split; vm_compute; discriminate.
Defined.

Example box_label_sample : box_label sample_names box_a = Ok "Wrench 0.12"%string.
Proof. reflexivity. Qed.

End OverlayProps.
